(** * ml-complexity-research-suite: the Real RAM deficit core

    A shallow embedding of
      - [projects/real_ram_deficit/algorithms/sumset.py]
      - [projects/real_ram_deficit/models/real_ram.py]
      - [projects/real_ram_deficit/models/word_ram.py]
      - [projects/real_ram_deficit/algorithms/geometric.py]
    and the properties of these modules stated in the specification.

    Python integers are unbounded, hence [Z].  A Python [set] of integers
    is a [gset Z].  Exceptions are values of [result].  The two external
    libraries the code calls (numpy's FFT and random generator, sympy's
    expressions) are not part of the repository: they enter as parameters
    whose assumed behaviour is written next to each theorem that needs it. *)

From Stdlib Require Import ZArith QArith Qabs Qcanon Lia Lqa List.
From Equations Require Import Equations.
From stdpp Require Import base gmap sets list strings.

#[local] Set Warnings "-clear-no-such-hyp".
Local Open Scope Z_scope.

(** ** Python exceptions and the primitives of the language used below *)

Module Py.

Inductive exn : Set :=
  | ValueError
  | IndexError
  | TypeError
  | ZeroDivisionError.

Inductive result (A : Type) : Type :=
  | Ok (a : A)
  | Raise (e : exn).
Arguments Ok {A} a.
Arguments Raise {A} e.

(** Sequencing of statements that may raise, with stdpp's [x ← m; k]. *)
#[export] Instance result_bind : MBind result := λ A B k m,
  match m with
  | Ok a => k a
  | Raise e => Raise e
  end.

(** Code that also updates a module-level counter of type [S]: the counter
    is threaded through, and an exception leaves it as it was when raised. *)
Definition stateful (S A : Type) : Type := S → result A * S.

#[export] Instance stateful_bind {S} : MBind (stateful S) := λ A B k m s,
  match m s with
  | (Ok a, s') => k a s'
  | (Raise e, s') => (Raise e, s')
  end.

#[export] Instance stateful_ret {S} : MRet (stateful S) := λ A a s, (Ok a, s).

Definition modify {S} (f : S → S) : stateful S () := λ s, (Ok (), f s).

Definition lift {S A} (r : result A) : stateful S A := λ s, (r, s).

(** [for x in l: body], threading the loop-carried variables [s]. *)
Fixpoint for_each {A S} (l : list A) (body : A → S → result S) (s : S)
  : result S :=
  match l with
  | [] => Ok s
  | x :: l' => s' ← body x s; for_each l' body s'
  end.

(** [not l] for a list. *)
Definition is_empty {A} (l : list A) : bool :=
  match l with
  | [] => true
  | _ :: _ => false
  end.

(** [min(l)] and [max(l)]: [ValueError] on the empty sequence. *)
Definition min (l : list Z) : result Z :=
  match l with
  | [] => Raise ValueError
  | x :: l' => Ok (fold_left Z.min l' x)
  end.

Definition max (l : list Z) : result Z :=
  match l with
  | [] => Raise ValueError
  | x :: l' => Ok (fold_left Z.max l' x)
  end.

(** [l[i] = v] on a list or a one-dimensional numpy array: indices
    [-len <= i < 0] count from the end, anything else out of range raises
    [IndexError]. *)
Definition setitem {A} (l : list A) (i : Z) (v : A) : result (list A) :=
  let n := Z.of_nat (length l) in
  if decide (0 ≤ i < n) then Ok (<[Z.to_nat i := v]> l)
  else if decide (- n ≤ i < 0) then Ok (<[Z.to_nat (n + i) := v]> l)
  else Raise IndexError.

(** [enumerate(l)] *)
Definition enumerate {A} (l : list A) : list (Z * A) :=
  imap (λ i v, (Z.of_nat i, v)) l.

(** [[v] * n]; a count [n <= 0] gives the empty list. *)
Definition repeat {A} (v : A) (n : Z) : list A := replicate (Z.to_nat n) v.

(** The comparison [x < y] of two floats, read on the rationals. *)
#[export] Instance Qlt_dec : RelDecision Qlt.
Proof.
  intros x y. destruct (Qlt_le_dec x y) as [H | H].
  - left. exact H.
  - right. intros H'. exact (Qle_not_lt _ _ H H').
Defined.

(** [range(n)] *)
Definition range (n : Z) : list Z := Z.of_nat <$> seq 0 (Z.to_nat n).

End Py.

Import Py.

(** ** sumset.py *)

Module SumsetResult.
Record t : Type := mk {
  sumset : gset Z;
  size : Z;
  algorithm : string;
  operations : Z
}.
End SumsetResult.

Module Sumset.

Definition naive_sumset (a b : list Z) : SumsetResult.t :=
  let '(result, operations) :=
    fold_left (λ st x,
      fold_left (λ '(result, operations) y,
                   ({[x + y]} ∪ result, operations + 1)) b st)
      a ((∅ : gset Z), 0) in
  SumsetResult.mk result (Z.of_nat (size result)) "naive" operations.

Definition bucket_sumset (a b : list Z) : result SumsetResult.t :=
  if is_empty a || is_empty b then Ok (SumsetResult.mk ∅ 0 "bucket" 0)
  else
    min_a ← Py.min a; min_b ← Py.min b;
    max_a ← Py.max a; max_b ← Py.max b;
    let min_sum := min_a + min_b in
    let max_sum := max_a + max_b in
    let hit := Py.repeat false (max_sum - min_sum + 1) in
    '(hit, operations) ←
      for_each a (λ x st,
        for_each b (λ y '(hit, operations),
          hit' ← setitem hit ((x + y) - min_sum) true;
          Ok (hit', operations + 1)) st) (hit, 0);
    let result : gset Z :=
      list_to_set
        ((λ '(i, _), i + min_sum) <$>
           filter (λ '(_, v), v = true) (enumerate hit)) in
    Ok (SumsetResult.mk result (Z.of_nat (size result)) "bucket" operations).

(** [while fft_size < size: fft_size *= 2].  The variable starts at 1 and
    is only ever doubled, so it ranges over the positive integers; the
    distance to [size] shrinks at every turn of the loop. *)
Equations pad_loop (size : Z) (fft_size : positive) : positive
  by wf (Z.to_nat (size - Z.pos fft_size)) lt :=
  pad_loop size fft_size with decide (Z.pos fft_size < size) := {
    | left _ => pad_loop size (fft_size * 2)
    | right _ => fft_size }.
Next Obligation. lia. Qed.

(** Lines 49-52: the loop from [fft_size = 1], then one more doubling. *)
Definition padded_size (size : Z) : Z := Z.pos (pad_loop size 1) * 2.

Section WithFFT.

(** [fft_convolve poly_a poly_b] stands for numpy's
    [np.fft.ifft(np.fft.fft(poly_a) * np.fft.fft(poly_b)).real]. *)
Variable fft_convolve : list Q → list Q → list Q.

(** [int(np.log2(n))]: the binary logarithm, truncated. *)
Definition int_log2 (n : Z) : Z := Z.log2 n.

Definition fft_sumset (a b : list Z) : result SumsetResult.t :=
  if is_empty a || is_empty b then Ok (SumsetResult.mk ∅ 0 "fft" 0)
  else
    min_a ← Py.min a; min_b ← Py.min b;
    let a_shifted := (λ x, x - min_a) <$> a in
    let b_shifted := (λ x, x - min_b) <$> b in
    max_a ← Py.max a_shifted; max_b ← Py.max b_shifted;
    let size := max_a + max_b + 1 in
    let fft_size := padded_size size in
    let poly_a := Py.repeat (0%Q) fft_size in
    let poly_b := Py.repeat (0%Q) fft_size in
    poly_a ← for_each a_shifted (λ x p, setitem p x (1%Q)) poly_a;
    poly_b ← for_each b_shifted (λ x p, setitem p x (1%Q)) poly_b;
    let product := fft_convolve poly_a poly_b in
    let result : gset Z :=
      list_to_set
        ((λ '(i, _), i + min_a + min_b) <$>
           filter (λ '(_, c), (1 # 2 < c)%Q) (enumerate product)) in
    let operations := 3 * fft_size * int_log2 fft_size in
    Ok (SumsetResult.mk result (Z.of_nat (base.size result)) "fft" operations).

End WithFFT.

(** The exact value of the transform round trip: the cyclic convolution
    of the two arrays, [c[k] = sum_i a[i] * b[(k - i) mod N]]. *)
Definition cyclic_conv_at (pa pb : list Q) (k : nat) : Q :=
  let N := length pa in
  fold_right Qplus 0%Q
    ((λ i, (nth i pa 0 * nth ((k + N - i) mod N) pb 0)%Q) <$> seq 0 N).

Definition cyclic_conv (pa pb : list Q) : list Q :=
  cyclic_conv_at pa pb <$> seq 0 (length pa).



(** *** Reference definitions for the statements about [sumset.py] *)

(** The array after [for i in idxs: l[i] = v], when no index is out of
    range. *)
Definition mark {A} (v : A) (idxs : list Z) (l : list A) : list A :=
  fold_left (λ p i, <[Z.to_nat i := v]> p) idxs l.


(** [len(set(l))]: the number of distinct values in a sequence. *)
Definition distinct (l : list Z) : Z :=
  Z.of_nat (base.size (list_to_set l : gset Z)).

(** The pairwise sums [x + y] in the order the double loop visits them;
    the reference the three algorithms are compared with. *)
Definition sums (a b : list Z) : list Z :=
  x ← a; (λ y, x + y) <$> b.

End Sumset.

(** ** real_ram.py *)

Module RealRAM.

Record OperationCost : Type := mkOperationCost {
  additions : Z;
  multiplications : Z;
  divisions : Z;
  comparisons : Z;
  square_roots : Z;
  transcendental : Z
}.

Definition total_algebraic (c : OperationCost) : Z :=
  additions c + multiplications c + divisions c + comparisons c
  + square_roots c.

Definition reset (c : OperationCost) : OperationCost :=
  mkOperationCost 0 0 0 0 0 0.

(** The counter after [additions += 1], [multiplications += 1],
    [divisions += 1], [comparisons += 1]. *)

Definition add_counted (c : OperationCost) : OperationCost :=
  mkOperationCost (additions c + 1) (multiplications c) (divisions c)
    (comparisons c) (square_roots c) (transcendental c).

Definition mul_counted (c : OperationCost) : OperationCost :=
  mkOperationCost (additions c) (multiplications c + 1) (divisions c)
    (comparisons c) (square_roots c) (transcendental c).

Definition div_counted (c : OperationCost) : OperationCost :=
  mkOperationCost (additions c) (multiplications c) (divisions c + 1)
    (comparisons c) (square_roots c) (transcendental c).

Definition cmp_counted (c : OperationCost) : OperationCost :=
  mkOperationCost (additions c) (multiplications c) (divisions c)
    (comparisons c + 1) (square_roots c) (transcendental c).

(** [_operation_counter.additions += 1] and its siblings. *)
Definition count_addition : stateful OperationCost () := modify add_counted.
Definition count_multiplication : stateful OperationCost () :=
  modify mul_counted.
Definition count_division : stateful OperationCost () := modify div_counted.
Definition count_comparison : stateful OperationCost () := modify cmp_counted.

(** The symbolic engine.  [ExactReal] stores a sympy expression and calls
    sympy's arithmetic, [simplify], [<] and [==] on it; sympy itself is not
    part of the repository, so these are the operations of an interface.
    [Decimal] is the type of the cached approximation. *)
Class Engine : Type := {
  Expr : Type;
  Decimal : Type;
  (** [sp.Integer(n)] and [sp.Rational(f.numerator, f.denominator)] *)
  sp_Integer : Z → Expr;
  sp_Rational : Qc → Expr;
  (** [x + y], [x - y], [x * y], [x / y] on expressions *)
  sp_add : Expr → Expr → Expr;
  sp_sub : Expr → Expr → Expr;
  sp_mul : Expr → Expr → Expr;
  sp_div : Expr → Expr → Expr;
  sp_simplify : Expr → Expr;
  (** [bool(e < 0)]: sympy raises [TypeError] on an invalid comparison, and
      so does [bool] on a relation that sympy left unevaluated. *)
  sp_lt_zero : Expr → result bool;
  (** [e == 0]: structural equality, always a Python [bool]. *)
  sp_eq_zero : Expr → bool;
  (** [Decimal(str(float(e.evalf(100))))] *)
  expr_numeric : Expr → result Decimal;
  (** [Decimal(n)] and [Decimal(numerator) / Decimal(denominator)] *)
  int_numeric : Z → Decimal;
  frac_numeric : Qc → Decimal
}.

(** Exact rational arithmetic: what the properties below rely on. *)
Class RationalLaws (E : Engine) : Prop := {
  sp_Integer_rat n : sp_Integer n = sp_Rational (Q2Qc (inject_Z n));
  sp_Rational_inj p q : sp_Rational p = sp_Rational q → p = q;
  sp_add_rat p q : sp_add (sp_Rational p) (sp_Rational q) = sp_Rational (p + q);
  sp_sub_rat p q : sp_sub (sp_Rational p) (sp_Rational q) = sp_Rational (p - q);
  sp_mul_rat p q : sp_mul (sp_Rational p) (sp_Rational q) = sp_Rational (p * q);
  sp_div_rat p q :
    q ≠ 0%Qc → sp_div (sp_Rational p) (sp_Rational q) = sp_Rational (p / q);
  sp_simplify_rat p : sp_simplify (sp_Rational p) = sp_Rational p;
  sp_lt_zero_rat p : sp_lt_zero (sp_Rational p) = Ok (bool_decide (p < 0)%Qc);
  sp_eq_zero_rat p : sp_eq_zero (sp_Rational p) = bool_decide (p = 0%Qc);
  expr_numeric_rat p : ∃ d, expr_numeric (sp_Rational p) = Ok d
}.

Section ExactReal.

Context {E : Engine}.

Record ExactReal : Type := mkExactReal {
  _symbolic : Expr;
  _numeric : Decimal
}.

(** The arguments the constructor and the operators dispatch on with
    [isinstance].  (The [float] and [str] branches of the constructor are
    left out: nothing below builds a value from a float or a string.
    Likewise [sqrt], [to_float] and [ExactPoint2D] take no part in the
    properties below.) *)
Inductive value : Type :=
  | VExactReal (r : ExactReal)
  | VExpr (e : Expr)
  | VFraction (f : Qc)
  | VInt (n : Z).

(** [ExactReal.__init__] *)
Definition ExactReal_init (v : value) : result ExactReal :=
  match v with
  | VExactReal r => Ok (mkExactReal (_symbolic r) (_numeric r))
  | VExpr e => d ← expr_numeric e; Ok (mkExactReal e d)
  | VFraction f => Ok (mkExactReal (sp_Rational f) (frac_numeric f))
  | VInt n => Ok (mkExactReal (sp_Integer n) (int_numeric n))
  end.

(** [other if isinstance(other, ExactReal) else ExactReal(other)] *)
Definition coerce (other : value) : result ExactReal :=
  match other with
  | VExactReal r => Ok r
  | _ => ExactReal_init other
  end.

Definition __add__ (self : ExactReal) (other : value)
  : stateful OperationCost ExactReal :=
  count_addition;;
  other ← lift (coerce other);
  lift (ExactReal_init (VExpr (sp_add (_symbolic self) (_symbolic other)))).

Definition __sub__ (self : ExactReal) (other : value)
  : stateful OperationCost ExactReal :=
  count_addition;;
  other ← lift (coerce other);
  lift (ExactReal_init (VExpr (sp_sub (_symbolic self) (_symbolic other)))).

Definition __mul__ (self : ExactReal) (other : value)
  : stateful OperationCost ExactReal :=
  count_multiplication;;
  other ← lift (coerce other);
  lift (ExactReal_init (VExpr (sp_mul (_symbolic self) (_symbolic other)))).

Definition __truediv__ (self : ExactReal) (other : value)
  : stateful OperationCost ExactReal :=
  count_division;;
  other ← lift (coerce other);
  lift (ExactReal_init (VExpr (sp_div (_symbolic self) (_symbolic other)))).

Definition __lt__ (self : ExactReal) (other : value)
  : stateful OperationCost bool :=
  count_comparison;;
  other ← lift (coerce other);
  lift (sp_lt_zero (sp_simplify (sp_sub (_symbolic self) (_symbolic other)))).

Definition __eq__ (self : ExactReal) (other : value)
  : stateful OperationCost bool :=
  count_comparison;;
  other ← lift (coerce other);
  mret (sp_eq_zero (sp_simplify (sp_sub (_symbolic self) (_symbolic other)))).

End ExactReal.

(** *** sympy's numbers

    The part of sympy that the rational operations of [ExactReal] stay in:
    rationals together with the two values sympy returns instead of raising
    on a division by zero, [zoo] (ComplexInfinity, for p/0 with p ≠ 0) and
    [nan] (for 0/0).  [nan] absorbs every operation; [zoo] behaves as
    sympy documents it. *)
Inductive number : Type :=
  | Rational (q : Qc)
  | ComplexInfinity
  | NaN.

Definition number_add (x y : number) : number :=
  match x, y with
  | NaN, _ | _, NaN => NaN
  | ComplexInfinity, ComplexInfinity => NaN
  | ComplexInfinity, _ | _, ComplexInfinity => ComplexInfinity
  | Rational p, Rational q => Rational (p + q)
  end.

Definition number_sub (x y : number) : number :=
  match x, y with
  | NaN, _ | _, NaN => NaN
  | ComplexInfinity, ComplexInfinity => NaN
  | ComplexInfinity, _ | _, ComplexInfinity => ComplexInfinity
  | Rational p, Rational q => Rational (p - q)
  end.

Definition number_mul (x y : number) : number :=
  match x, y with
  | NaN, _ | _, NaN => NaN
  | ComplexInfinity, ComplexInfinity => ComplexInfinity
  | ComplexInfinity, Rational q | Rational q, ComplexInfinity =>
      if decide (q = 0%Qc) then NaN else ComplexInfinity
  | Rational p, Rational q => Rational (p * q)
  end.

Definition number_div (x y : number) : number :=
  match x, y with
  | NaN, _ | _, NaN => NaN
  | ComplexInfinity, ComplexInfinity => NaN
  | ComplexInfinity, Rational _ => ComplexInfinity
  | Rational _, ComplexInfinity => Rational 0
  | Rational p, Rational q =>
      if decide (q = 0%Qc)
      then (if decide (p = 0%Qc) then NaN else ComplexInfinity)
      else Rational (p / q)
  end.

(** [bool(x < 0)]: sympy rejects a comparison with [nan] or [zoo]. *)
Definition number_lt_zero (x : number) : result bool :=
  match x with
  | Rational p => Ok (bool_decide (p < 0)%Qc)
  | ComplexInfinity | NaN => Raise TypeError
  end.

Definition number_eq_zero (x : number) : bool :=
  match x with
  | Rational p => bool_decide (p = 0%Qc)
  | ComplexInfinity | NaN => false
  end.

(** The cached approximation, without the rounding of [float] and
    [Decimal]: no property below reads it. *)
Inductive approx : Type :=
  | Finite (q : Qc)
  | NotANumber.

(** [float(zoo)] raises [TypeError]; [float(nan)] is a float NaN. *)
Definition number_numeric (x : number) : result approx :=
  match x with
  | Rational p => Ok (Finite p)
  | ComplexInfinity => Raise TypeError
  | NaN => Ok NotANumber
  end.

Definition Sympy : Engine := {|
  Expr := number;
  Decimal := approx;
  sp_Integer n := Rational (Q2Qc (inject_Z n));
  sp_Rational := Rational;
  sp_add := number_add;
  sp_sub := number_sub;
  sp_mul := number_mul;
  sp_div := number_div;
  sp_simplify x := x;
  sp_lt_zero := number_lt_zero;
  sp_eq_zero := number_eq_zero;
  expr_numeric := number_numeric;
  int_numeric n := Finite (Q2Qc (inject_Z n));
  frac_numeric := Finite
|}.

End RealRAM.

(** ** word_ram.py *)

Module WordRAM.

Record WordRAMCost : Type := mkWordRAMCost {
  word_operations : Z;
  comparisons : Z;
  memory_accesses : Z
}.

Definition total (c : WordRAMCost) : Z :=
  word_operations c + comparisons c + memory_accesses c.

Record WordRAMInteger : Type := mkWordRAMInteger {
  value : Z;
  word_size : Z
}.

(** The right operand: a [WordRAMInteger] or a plain [int]. *)
Inductive operand : Type :=
  | Word (w : WordRAMInteger)
  | Int (n : Z).

(** [other.value if isinstance(other, WordRAMInteger) else other] *)
Definition other_val (other : operand) : Z :=
  match other with
  | Word w => value w
  | Int n => n
  end.

Definition _track_op : stateful WordRAMCost () :=
  modify (λ c, mkWordRAMCost (word_operations c + 1) (comparisons c)
                 (memory_accesses c)).

Definition __add__ (self : WordRAMInteger) (other : operand)
  : stateful WordRAMCost WordRAMInteger :=
  _track_op;;
  mret (mkWordRAMInteger (value self + other_val other) (word_size self)).

Definition __mul__ (self : WordRAMInteger) (other : operand)
  : stateful WordRAMCost WordRAMInteger :=
  _track_op;;
  mret (mkWordRAMInteger (value self * other_val other) (word_size self)).

Definition __lt__ (self : WordRAMInteger) (other : operand)
  : stateful WordRAMCost bool :=
  modify (λ c, mkWordRAMCost (word_operations c) (comparisons c + 1)
                 (memory_accesses c));;
  mret (bool_decide (value self < other_val other)).

End WordRAM.

(** ** geometric.py *)

Module Geometric.

(** The numpy primitives [hill_climb] calls, on arrays and floats that are
    not modelled further; they are taken as total, so inputs that numpy
    itself rejects are outside the model.  ([gradient_descent] takes no part
    in the properties below.) *)
Class Numpy : Type := {
  Array : Type;
  Float : Type;
  Rng : Type;
  (** [np.array(points)] *)
  np_array : list (Float * Float) → Array;
  (** [np.random.seed(seed)]: the state of the global generator *)
  np_random_seed : Z → Rng;
  (** [np.random.uniform(-step_size, step_size, best.shape)]: the array
      drawn and the state of the generator afterwards *)
  np_random_uniform : Float → Array → Rng → Array * Rng;
  (** [x + y] on arrays, [np.clip(x, 0, 1)], [x.copy()], [x.flatten()] *)
  np_add : Array → Array → Array;
  np_clip01 : Array → Array;
  np_copy : Array → Array;
  np_flatten : Array → Array;
  (** the local function [cost]:
      [np.sum(np.linalg.norm(pts - pts.mean(axis=0), axis=1))] *)
  cost : Array → Float;
  (** [x < y] on floats *)
  float_lt : Float → Float → bool
}.

Section HillClimb.

Context {N : Numpy}.

Record OptimizationResult : Type := mkOptimizationResult {
  optimal_value : Float;
  optimal_point : Array;
  iterations : Z;
  function_evaluations : Z;
  gradient_evaluations : Z;
  converged : bool
}.






End HillClimb.


End Geometric.

(** ** More of the language, and project.py *)

Module PyMore.

#[export] Instance result_ret : MRet result := λ A a, Ok a.

(** [range(start, stop)] *)
Definition range2 (start stop : Z) : list Z :=
  (λ k, start + Z.of_nat k) <$> seq 0 (Z.to_nat (stop - start)).

(** [l[i]]: indices [-len <= i < 0] count from the end, anything else out
    of range raises [IndexError]. *)
Definition getitem {A} (l : list A) (i : Z) : result A :=
  let n := Z.of_nat (length l) in
  let k := if decide (0 ≤ i) then i else n + i in
  if decide (0 ≤ k < n) then
    match l !! Z.to_nat k with
    | Some x => Ok x
    | None => Raise IndexError
    end
  else Raise IndexError.

(** [[f(x) for x in l]], stopping at the first exception. *)
Fixpoint comprehension {A B} (f : A → result B) (l : list A)
  : result (list B) :=
  match l with
  | [] => Ok []
  | x :: l' => y ← f x; ys ← comprehension f l'; Ok (y :: ys)
  end.

(** [for x in l: body] in code that also updates a module-level counter. *)
Fixpoint for_each_st {A S T} (l : list A) (body : A → T → stateful S T)
    (t : T) : stateful S T :=
  match l with
  | [] => mret t
  | x :: l' => t' ← body x t; for_each_st l' body t'
  end.

End PyMore.

Module RealRAMMore.
Import PyMore RealRAM.

(** [reset_operation_count()] and [get_operation_count()] *)
Definition reset_operation_count : stateful OperationCost () := modify reset.

Definition get_operation_count : stateful OperationCost OperationCost :=
  λ c, (Ok c, c).

(** *** project.py: RealRAMOperationsExperiment.run *)

Section OperationsExperiment.

Context {E : Engine}.

Record operations_report : Type := mkReport {
  n_points : Z;
  report_additions : Z;
  report_multiplications : Z;
  report_total : Z
}.

Definition run (n_points : Z) : stateful OperationCost operations_report :=
  points ← lift (comprehension (λ i, ExactReal_init (VInt i))
                   (Py.range n_points));
  reset_operation_count;;
  total ← lift (ExactReal_init (VInt 0));
  total ←
    for_each_st (Py.range (Z.of_nat (length points))) (λ i total,
      for_each_st (range2 (i + 1) (Z.of_nat (length points))) (λ j total,
        pi ← lift (getitem points i);
        pj ← lift (getitem points j);
        diff ← __sub__ pi (VExactReal pj);
        sq ← __mul__ diff (VExactReal diff);
        __add__ total (VExactReal sq)) total) total;
  ops ← get_operation_count;
  mret (mkReport n_points (additions ops) (multiplications ops)
          (total_algebraic ops)).

(** The counter after the loop body of [run] has been executed [k] times:
    each turn makes one subtraction, one multiplication and one addition. *)
Definition pairs_counted (k : Z) (c : OperationCost) : OperationCost :=
  mkOperationCost (additions c + 2 * k) (multiplications c + k)
    (divisions c) (comparisons c) (square_roots c) (transcendental c).

End OperationsExperiment.

End RealRAMMore.

(** ** geometric.py: gradient_descent *)

Module GradientDescent.
Import Geometric.

(** The two further numpy operations of [gradient_descent]. *)
Class Linalg (N : Numpy) : Type := {
  (** [np.linalg.norm(g)] *)
  np_linalg_norm : Array → Float;
  (** [x - learning_rate * grad] *)
  np_descend : Array → Float → Array → Array
}.

Section GradientDescent.

Context {N : Numpy} {A : Linalg N}.

Variables (f : Array → Float) (grad_f : Array → Array).
Variables (learning_rate tol : Float).

(** One turn of the loop that does not return: the update of [x]. *)
Definition descent_step (x : Array) : Array :=
  np_descend x learning_rate (grad_f x).

(** The loop over the remaining indices: either the [return] inside the
    loop was reached, or the loop ran out and leaves [x]. *)
Fixpoint descent_loop (l : list Z) (x : Array) : OptimizationResult + Array :=
  match l with
  | [] => inr x
  | i :: l' =>
      let grad := grad_f x in
      if float_lt (np_linalg_norm grad) tol
      then inl (mkOptimizationResult (f x) x i (i + 1) (i + 1) true)
      else descent_loop l' (np_descend x learning_rate grad)
  end.

Definition gradient_descent (x0 : Array) (max_iter : Z) : OptimizationResult :=
  let x := np_copy x0 in
  match descent_loop (Py.range max_iter) x with
  | inl r => r
  | inr x =>
      mkOptimizationResult (f x) x max_iter (max_iter + 1) max_iter false
  end.

End GradientDescent.

End GradientDescent.

(* ================================================================== *)
(** * Properties *)

Module SumsetProofs.
Import Sumset.

Example naive_ex :
  naive_sumset [1; 2; 3] [10; 20]
  = SumsetResult.mk (list_to_set [11; 12; 13; 21; 22; 23]) 6 "naive" 6.
Proof. vm_compute. reflexivity. Qed.

Example bucket_ex :
  bucket_sumset [1; 2; 3] [10; 20]
  = Ok (SumsetResult.mk (list_to_set [11; 12; 13; 21; 22; 23]) 6 "bucket" 6).
Proof. vm_compute. reflexivity. Qed.

Example fft_ex :
  fft_sumset cyclic_conv [1; 2; 3] [10; 20]
  = Ok (SumsetResult.mk (list_to_set [11; 12; 13; 21; 22; 23]) 6 "fft" 480).
Proof. vm_compute. reflexivity. Qed.


(** *** The pairwise sums *)

Lemma elem_of_sums a b z :
  z ∈ sums a b ↔ ∃ x y, x ∈ a ∧ y ∈ b ∧ z = x + y.
Proof.
  unfold sums. rewrite list_elem_of_bind. split.
  - intros (x & Hz & Hx). apply list_elem_of_fmap in Hz as (y & -> & Hy).
    eauto.
  - intros (x & y & Hx & Hy & ->). exists x. split; [|done].
    apply list_elem_of_fmap. eauto.
Qed.

Lemma sums_cons x a b : sums (x :: a) b = ((λ y, x + y) <$> b) ++ sums a b.
Proof. done. Qed.



(** *** The naive double loop *)

Lemma naive_inner x b (r : gset Z) ops :
  fold_left (λ '(result, operations) y,
               ({[x + y]} ∪ result, operations + 1)) b (r, ops)
  = (list_to_set ((λ y, x + y) <$> b) ∪ r, ops + Z.of_nat (length b)).
Proof.
  revert r ops. induction b as [|y b IH]; intros r ops; cbn.
  - f_equal; [set_solver | lia].
  - rewrite IH. f_equal; [set_solver | lia].
Qed.

Lemma naive_outer a b (r : gset Z) ops :
  fold_left (λ st x,
      fold_left (λ '(result, operations) y,
                   ({[x + y]} ∪ result, operations + 1)) b st) a (r, ops)
  = (list_to_set (sums a b) ∪ r,
     ops + Z.of_nat (length a) * Z.of_nat (length b)).
Proof.
  revert r ops. induction a as [|x a IH]; intros r ops.
  - cbn. f_equal; [set_solver | lia].
  - cbn [fold_left]. rewrite naive_inner, IH, sums_cons.
    rewrite list_to_set_app_L. f_equal; [set_solver | cbn [length]; lia].
Qed.

Lemma naive_sumset_spec a b :
  naive_sumset a b
  = SumsetResult.mk (list_to_set (sums a b))
      (Z.of_nat (base.size (list_to_set (sums a b) : gset Z))) "naive"
      (Z.of_nat (length a) * Z.of_nat (length b)).
Proof.
  unfold naive_sumset. rewrite naive_outer.
  rewrite (right_id_L ∅ (∪)). f_equal.
Qed.

(** *** [min], [max] and item assignment *)

Lemma fold_min_spec l x :
  fold_left Z.min l x ∈ x :: l ∧ ∀ y, y ∈ x :: l → fold_left Z.min l x ≤ y.
Proof.
  revert x. induction l as [|z l IH]; intros x; cbn.
  - split; [set_solver|]. intros y ->%list_elem_of_singleton. lia.
  - destruct (IH (Z.min x z)) as [Hin Hle]. split.
    + apply elem_of_cons in Hin as [->|Hin]; [|set_solver].
      destruct (Z.min_spec x z) as [[_ ->]|[_ ->]]; set_solver.
    + intros y Hy. assert (Hm : fold_left Z.min l (Z.min x z) ≤ Z.min x z)
        by (apply Hle; set_solver).
      apply elem_of_cons in Hy as [->|Hy]; [lia|].
      apply elem_of_cons in Hy as [->|Hy]; [lia|].
      apply Hle. set_solver.
Qed.

Lemma fold_max_spec l x :
  fold_left Z.max l x ∈ x :: l ∧ ∀ y, y ∈ x :: l → y ≤ fold_left Z.max l x.
Proof.
  revert x. induction l as [|z l IH]; intros x; cbn.
  - split; [set_solver|]. intros y ->%list_elem_of_singleton. lia.
  - destruct (IH (Z.max x z)) as [Hin Hle]. split.
    + apply elem_of_cons in Hin as [->|Hin]; [|set_solver].
      destruct (Z.max_spec x z) as [[_ ->]|[_ ->]]; set_solver.
    + intros y Hy. assert (Hm : Z.max x z ≤ fold_left Z.max l (Z.max x z))
        by (apply Hle; set_solver).
      apply elem_of_cons in Hy as [->|Hy]; [lia|].
      apply elem_of_cons in Hy as [->|Hy]; [lia|].
      apply Hle. set_solver.
Qed.

Lemma min_spec l :
  l ≠ [] → ∃ m, Py.min l = Ok m ∧ m ∈ l ∧ ∀ y, y ∈ l → m ≤ y.
Proof.
  destruct l as [|x l]; [done|]. intros _.
  exists (fold_left Z.min l x). split; [done|]. apply fold_min_spec.
Qed.

Lemma max_spec l :
  l ≠ [] → ∃ m, Py.max l = Ok m ∧ m ∈ l ∧ ∀ y, y ∈ l → y ≤ m.
Proof.
  destruct l as [|x l]; [done|]. intros _.
  exists (fold_left Z.max l x). split; [done|]. apply fold_max_spec.
Qed.

Lemma min_lower l m : Py.min l = Ok m → ∀ y, y ∈ l → m ≤ y.
Proof.
  destruct l as [|x l]; [done|]. intros [= <-]. apply fold_min_spec.
Qed.

Lemma max_upper l m : Py.max l = Ok m → ∀ y, y ∈ l → y ≤ m.
Proof.
  destruct l as [|x l]; [done|]. intros [= <-]. apply fold_max_spec.
Qed.

Lemma length_mark {A} (v : A) idxs l : length (mark v idxs l) = length l.
Proof.
  revert l. induction idxs as [|i idxs IH]; intros l; [done|].
  cbn. unfold mark in IH. by rewrite IH, length_insert.
Qed.

Lemma mark_app {A} (v : A) i1 i2 l :
  mark v (i1 ++ i2) l = mark v i2 (mark v i1 l).
Proof. unfold mark. apply fold_left_app. Qed.

Lemma lookup_mark_in {A} (v : A) idxs l (k : nat) :
  Z.of_nat k ∈ idxs → (k < length l)%nat → mark v idxs l !! k = Some v.
Proof.
  revert l. induction idxs as [|i idxs IH]; intros l Hin Hk.
  - by apply elem_of_nil in Hin.
  - cbn. destruct (decide (Z.of_nat k ∈ idxs)) as [Hin'|Hnin].
    + apply IH; [done|]. by rewrite length_insert.
    + apply elem_of_cons in Hin as [<-|?]; [|done].
      rewrite Nat2Z.id. clear IH Hnin.
      assert (Hl : <[k:=v]> l !! k = Some v)
        by (by apply list_lookup_insert_eq).
      revert Hl. generalize (<[k:=v]> l). clear Hk l.
      induction idxs as [|j idxs IH]; intros l Hl; [done|].
      cbn. apply IH. destruct (decide (Z.to_nat j = k)) as [->|Hne].
      * apply list_lookup_insert_eq. by eapply lookup_lt_Some.
      * by rewrite list_lookup_insert_ne.
Qed.

Lemma lookup_mark_notin {A} (v : A) idxs l (k : nat) :
  (∀ i, i ∈ idxs → 0 ≤ i) → Z.of_nat k ∉ idxs →
  mark v idxs l !! k = l !! k.
Proof.
  revert l. induction idxs as [|i idxs IH]; intros l Hpos Hnin; [done|].
  cbn. unfold mark in IH. rewrite IH.
  - apply list_lookup_insert_ne. intros <-. apply Hnin.
    rewrite Z2Nat.id; [set_solver|]. apply Hpos. set_solver.
  - intros j Hj. apply Hpos. set_solver.
  - set_solver.
Qed.

Lemma setitem_in_range {A} (l : list A) i v :
  0 ≤ i < Z.of_nat (length l) → setitem l i v = Ok (<[Z.to_nat i := v]> l).
Proof. intros Hi. unfold setitem. by rewrite decide_True. Qed.


(** The set comprehension over [enumerate]. *)
Lemma elem_of_enumerate {A} (l : list A) (i : Z) (v : A) :
  (i, v) ∈ enumerate l ↔ ∃ k : nat, i = Z.of_nat k ∧ l !! k = Some v.
Proof.
  unfold enumerate. rewrite elem_of_lookup_imap. split.
  - intros (k & x & [= -> ->] & Hk). eauto.
  - intros (k & -> & Hk). eauto.
Qed.

Lemma elem_of_comprehension {A} (f : Z * A → Z) (P : Z * A → Prop)
    `{!∀ p, Decision (P p)} (l : list A) (z : Z) :
  z ∈ (list_to_set (f <$> filter P (enumerate l)) : gset Z)
  ↔ ∃ (k : nat) (v : A),
      l !! k = Some v ∧ P (Z.of_nat k, v) ∧ z = f (Z.of_nat k, v).
Proof.
  rewrite elem_of_list_to_set, list_elem_of_fmap. split.
  - intros ([i v] & -> & [HP Hin]%list_elem_of_filter).
    apply elem_of_enumerate in Hin as (k & -> & Hk). eauto.
  - intros (k & v & Hk & HP & ->). exists (Z.of_nat k, v). split; [done|].
    apply list_elem_of_filter. split; [done|].
    apply elem_of_enumerate. eauto.
Qed.

(** *** The bucket algorithm *)

Lemma bucket_inner x b m (hit : list bool) ops :
  (∀ y, y ∈ b → 0 ≤ x + y - m < Z.of_nat (length hit)) →
  for_each b (λ y '(hit, operations),
      hit' ← setitem hit ((x + y) - m) true;
      Ok (hit', operations + 1)) (hit, ops)
  = Ok (mark true ((λ s, s - m) <$> ((λ y, x + y) <$> b)) hit,
        ops + Z.of_nat (length b)).
Proof.
  revert hit ops. induction b as [|y b IH]; intros hit ops Hr.
  - cbn. do 2 f_equal. lia.
  - cbn. rewrite setitem_in_range by (apply Hr; set_solver). cbn.
    rewrite IH.
    + do 2 f_equal. lia.
    + intros z Hz. rewrite length_insert. apply Hr. set_solver.
Qed.

Lemma bucket_outer a b m (hit : list bool) ops :
  (∀ s, s ∈ sums a b → 0 ≤ s - m < Z.of_nat (length hit)) →
  for_each a (λ x st,
      for_each b (λ y '(hit, operations),
          hit' ← setitem hit ((x + y) - m) true;
          Ok (hit', operations + 1)) st) (hit, ops)
  = Ok (mark true ((λ s, s - m) <$> sums a b) hit,
        ops + Z.of_nat (length a) * Z.of_nat (length b)).
Proof.
  revert hit ops. induction a as [|x a IH]; intros hit ops Hr.
  - cbn. do 2 f_equal. lia.
  - rewrite sums_cons in Hr |- *. rewrite fmap_app, mark_app.
    cbn [for_each]. rewrite bucket_inner by (intros y Hy; apply Hr; set_solver).
    unfold mbind, result_bind. rewrite IH.
    + do 2 f_equal. cbn [length]. lia.
    + intros s Hs. rewrite length_mark. apply Hr. set_solver.
Qed.

Lemma sums_nil_r a : sums a [] = [].
Proof. induction a as [|x a IH]; [done|]. by rewrite sums_cons, IH. Qed.

Lemma bucket_sumset_spec a b :
  bucket_sumset a b
  = Ok (SumsetResult.mk (list_to_set (sums a b))
          (Z.of_nat (base.size (list_to_set (sums a b) : gset Z))) "bucket"
          (Z.of_nat (length a) * Z.of_nat (length b))).
Proof.
  unfold bucket_sumset.
  destruct a as [|x0 a0]; [done|]. destruct b as [|y0 b0].
  { cbn [is_empty orb]. rewrite sums_nil_r. cbn.
    rewrite size_empty. do 2 f_equal; lia. }
  cbn [is_empty orb].
  set (a := x0 :: a0). set (b := y0 :: b0).
  destruct (min_spec a) as (min_a & -> & Hmina & Hmina'); [done|].
  destruct (min_spec b) as (min_b & -> & Hminb & Hminb'); [done|].
  destruct (max_spec a) as (max_a & -> & Hmaxa & Hmaxa'); [done|].
  destruct (max_spec b) as (max_b & -> & Hmaxb & Hmaxb'); [done|].
  cbn -[a b sums]. rewrite bucket_outer; cycle 1.
  { intros s (x & y & Hx & Hy & ->)%elem_of_sums.
    unfold Py.repeat. rewrite length_replicate.
    specialize (Hmina' x Hx). specialize (Hmaxa' x Hx).
    specialize (Hminb' y Hy). specialize (Hmaxb' y Hy). lia. }
  cbn -[a b sums].
  assert (Hset :
    (list_to_set ((λ '(i, _), i + (min_a + min_b)) <$>
       filter (λ '(_, v), v = true)
         (enumerate (mark true ((λ s, s - (min_a + min_b)) <$> sums a b)
            (Py.repeat false (max_a + max_b - (min_a + min_b) + 1)))))
     : gset Z) = list_to_set (sums a b)).
  { apply set_eq. intros z. rewrite elem_of_comprehension.
    rewrite elem_of_list_to_set. split.
    - intros (k & v & Hk & -> & ->).
      destruct (decide (Z.of_nat k ∈ (λ s, s - (min_a + min_b)) <$> sums a b))
        as [Hin|Hnin].
      + apply list_elem_of_fmap in Hin as (s & Hs & Hin).
        replace (Z.of_nat k + (min_a + min_b)) with s by lia. done.
      + rewrite lookup_mark_notin in Hk; [|
          intros i (s & -> & (x & y & Hx & Hy & ->)%elem_of_sums)%list_elem_of_fmap;
          specialize (Hmina' x Hx); specialize (Hminb' y Hy); lia | done].
        unfold Py.repeat in Hk. by apply lookup_replicate in Hk as [? _].
    - intros Hz. pose proof Hz as (x & y & Hx & Hy & ->)%elem_of_sums.
      specialize (Hmina' x Hx). specialize (Hmaxa' x Hx).
      specialize (Hminb' y Hy). specialize (Hmaxb' y Hy).
      exists (Z.to_nat (x + y - (min_a + min_b))), true.
      split; [|split; [done|lia]].
      apply lookup_mark_in.
      + apply list_elem_of_fmap. exists (x + y). split; [lia|done].
      + unfold Py.repeat. rewrite length_replicate. lia. }
  rewrite Hset. do 2 f_equal; lia.
Qed.

(** *** The transform-based algorithm: padding *)




(** *** The transform-based algorithm: indicator arrays *)







(** *** Sums of rationals *)




(** *** The exact convolution of two indicator arrays *)


Section Convolution.

Variables (a_sh b_sh : list Z) (ma mb N : Z).
Hypothesis a_range : ∀ x, x ∈ a_sh → 0 ≤ x ≤ ma.
Hypothesis b_range : ∀ y, y ∈ b_sh → 0 ≤ y ≤ mb.
Hypothesis no_wrap : ma + mb + 1 ≤ N.

Local Abbreviation poly idxs := (mark 1%Q idxs (Py.repeat 0%Q N)) (only parsing).





End Convolution.

(** *** The transform-based algorithm: the whole function *)







(** *** Cardinality of the set of sums *)

Lemma size_fmap_inj (f : Z → Z) `{!Inj (=) (=) f} (l : list Z) :
  base.size (list_to_set (f <$> l) : gset Z)
  = base.size (list_to_set l : gset Z).
Proof.
  assert (H1 : (list_to_set (f <$> l) : gset Z)
               = list_to_set (f <$> remove_dups l)).
  { apply set_eq. intros z. rewrite !elem_of_list_to_set, !list_elem_of_fmap.
    by setoid_rewrite elem_of_remove_dups. }
  assert (H2 : (list_to_set l : gset Z) = list_to_set (remove_dups l)).
  { apply set_eq. intros z.
    by rewrite !elem_of_list_to_set, elem_of_remove_dups. }
  rewrite H1, H2, !size_list_to_set, length_fmap; [done|..].
  - apply NoDup_remove_dups.
  - apply NoDup_fmap_2; [done|]. apply NoDup_remove_dups.
Qed.


Lemma sums_empty a b : a = [] ∨ b = [] → sums a b = [].
Proof. intros [-> | ->]; [done | apply sums_nil_r]. Qed.

Lemma fft_sumset_empty F a b :
  a = [] ∨ b = [] → fft_sumset F a b = Ok (SumsetResult.mk ∅ 0 "fft" 0).
Proof. intros [-> | ->]; [done|]. by destruct a. Qed.


(** *** The stated properties of the sumset engine *)






(** C5. With A or B empty each of the three algorithms returns, without
    raising, the empty set with size 0 and operation count 0. *)
Theorem sumset_empty_input F a b :
  a = [] ∨ b = [] →
  naive_sumset a b = SumsetResult.mk ∅ 0 "naive" 0
  ∧ bucket_sumset a b = Ok (SumsetResult.mk ∅ 0 "bucket" 0)
  ∧ fft_sumset F a b = Ok (SumsetResult.mk ∅ 0 "fft" 0).
Proof.
  intros He. rewrite naive_sumset_spec, bucket_sumset_spec, fft_sumset_empty
    by done.
  rewrite sums_empty by done. cbn. rewrite size_empty.
  assert (Z.of_nat (length a) * Z.of_nat (length b) = 0) as ->
    by (destruct He as [-> | ->]; cbn; lia).
  done.
Qed.

Lemma sumset_empty_input_witness :
  (([] : list Z) = [] ∨ [5] = [])
  ∧ naive_sumset [] [5] = SumsetResult.mk ∅ 0 "naive" 0
  ∧ bucket_sumset [] [5] = Ok (SumsetResult.mk ∅ 0 "bucket" 0)
  ∧ fft_sumset cyclic_conv [] [5] = Ok (SumsetResult.mk ∅ 0 "fft" 0).
Proof.
  split; [by left|].
  exact (sumset_empty_input cyclic_conv [] [5] (or_introl eq_refl)).
Defined.



End SumsetProofs.

Module RealRAMProofs.
Import RealRAM.

(** *** Rationals *)

Lemma Qc_sub_neg (p q : Qc) : (p - q < 0)%Qc ↔ (p < q)%Qc.
Proof.
  unfold Qclt, Qcminus, Qcplus, Qcopp. cbn. rewrite !Qred_correct.
  split; intros; lra.
Qed.

Lemma Qc_sub_zero (p q : Qc) : (p - q)%Qc = 0%Qc ↔ p = q.
Proof.
  split; [intros H | intros ->; ring].
  replace p with ((p - q) + q)%Qc by ring. rewrite H. ring.
Qed.

Lemma Qc_third_times_three :
  (Q2Qc (inject_Z 1) / Q2Qc (inject_Z 3) * Q2Qc (inject_Z 3))%Qc
  = Q2Qc (inject_Z 1).
Proof. apply Qc_is_canon. reflexivity. Qed.

Lemma Qc_three_nonzero : Q2Qc (inject_Z 3) ≠ 0%Qc.
Proof. intros H. apply (f_equal this) in H. discriminate H. Qed.

(** *** sympy's numbers satisfy the laws of exact rational arithmetic *)

#[export] Instance Sympy_laws : RationalLaws Sympy.
Proof.
  split; cbn; try done.
  - by intros p q [= ->].
  - intros p q Hq. by rewrite decide_False.
  - intros p. by eexists.
Qed.

Section Generic.

Context {E : Engine}.

Lemma truediv_run (a b : ExactReal) c :
  __truediv__ a (VExactReal b) c
  = (ExactReal_init (VExpr (sp_div (_symbolic a) (_symbolic b))),
     div_counted c).
Proof. done. Qed.

Lemma add_run (a b : ExactReal) c :
  __add__ a (VExactReal b) c
  = (ExactReal_init (VExpr (sp_add (_symbolic a) (_symbolic b))),
     add_counted c).
Proof. done. Qed.

Lemma mul_run (a b : ExactReal) c :
  __mul__ a (VExactReal b) c
  = (ExactReal_init (VExpr (sp_mul (_symbolic a) (_symbolic b))),
     mul_counted c).
Proof. done. Qed.

Lemma lt_run (a b : ExactReal) c :
  __lt__ a (VExactReal b) c
  = (sp_lt_zero (sp_simplify (sp_sub (_symbolic a) (_symbolic b))),
     cmp_counted c).
Proof. done. Qed.

Lemma eq_run (a b : ExactReal) c :
  __eq__ a (VExactReal b) c
  = (Ok (sp_eq_zero (sp_simplify (sp_sub (_symbolic a) (_symbolic b)))),
     cmp_counted c).
Proof. done. Qed.

Context {L : RationalLaws E}.

Lemma init_rational p :
  ∃ d, ExactReal_init (VExpr (sp_Rational p)) = Ok (mkExactReal (sp_Rational p) d).
Proof.
  destruct (expr_numeric_rat p) as [d Hd]. exists d. cbn. by rewrite Hd.
Qed.

Lemma eq_rational (a b : ExactReal) p q c :
  _symbolic a = sp_Rational p → _symbolic b = sp_Rational q →
  __eq__ a (VExactReal b) c = (Ok (bool_decide (p = q)), cmp_counted c).
Proof.
  intros Ha Hb. rewrite eq_run, Ha, Hb, sp_sub_rat, sp_simplify_rat.
  rewrite sp_eq_zero_rat. do 2 f_equal. apply bool_decide_ext, Qc_sub_zero.
Qed.

Lemma lt_rational (a b : ExactReal) p q c :
  _symbolic a = sp_Rational p → _symbolic b = sp_Rational q →
  __lt__ a (VExactReal b) c = (Ok (bool_decide (p < q)%Qc), cmp_counted c).
Proof.
  intros Ha Hb. rewrite lt_run, Ha, Hb, sp_sub_rat, sp_simplify_rat.
  rewrite sp_lt_zero_rat. do 2 f_equal. apply bool_decide_ext, Qc_sub_neg.
Qed.

End Generic.

(** *** The stated properties of the exact numbers *)

(** C2, as stated, fails: dividing zero by zero raises nothing.  sympy
    evaluates 0/0 to [nan], and [ExactReal] wraps it. *)
Lemma division_zero_by_zero_returns :
  ∃ zero : ExactReal (E:=Sympy),
    ExactReal_init (VInt 0) = Ok zero
    ∧ __truediv__ zero (VExactReal zero) (mkOperationCost 0 0 0 0 0 0)
      = (Ok (mkExactReal (E:=Sympy) NaN NotANumber), mkOperationCost 0 0 1 0 0 0).
Proof. eexists. split; reflexivity. Qed.

(** C2, amended. [ExactReal.__truediv__] has no zero test of its own.
    With a divisor that is exactly zero it counts one division and hands
    sympy's quotient to the constructor: for a nonzero rational dividend
    the quotient is [zoo] and the call fails with the [TypeError] of
    converting it to float; for a zero dividend the quotient is [nan] and
    the call returns it. *)
Theorem division_by_exact_zero (p : Qc) (a zero : ExactReal (E:=Sympy)) c :
  ExactReal_init (VFraction p) = Ok a →
  ExactReal_init (VInt 0) = Ok zero →
  __truediv__ a (VExactReal zero) c
  = (if decide (p = 0%Qc) then Ok (mkExactReal (E:=Sympy) NaN NotANumber)
     else Raise TypeError,
     div_counted c).
Proof.
  intros [= <-] [= <-]. rewrite truediv_run. f_equal. cbn.
  rewrite decide_True by (by apply Qc_is_canon).
  by destruct (decide (p = 0%Qc)).
Qed.

Lemma division_by_exact_zero_witness :
  ∃ a zero : ExactReal (E:=Sympy),
    ExactReal_init (VFraction (Q2Qc (2 # 3))) = Ok a
    ∧ ExactReal_init (VInt 0) = Ok zero
    ∧ __truediv__ a (VExactReal zero) (mkOperationCost 4 3 2 1 0 0)
      = (if decide (Q2Qc (2 # 3) = 0%Qc)
         then Ok (mkExactReal (E:=Sympy) NaN NotANumber) else Raise TypeError,
         div_counted (mkOperationCost 4 3 2 1 0 0)).
Proof.
  eexists _, _. split; [reflexivity|]. split; [reflexivity|].
  exact (division_by_exact_zero (Q2Qc (2 # 3)) _ _ _ eq_refl eq_refl).
Defined.

(** C3, as stated, fails for equality.  The sign of [nan − nan] cannot be
    resolved ([__lt__] fails on it), yet [__eq__] raises nothing and
    reports the operands unequal. *)
Lemma equality_of_unresolved_is_silent :
  ∃ x : ExactReal (E:=Sympy),
    ExactReal_init (VExpr (E:=Sympy) NaN) = Ok x
    ∧ __lt__ x (VExactReal x) (mkOperationCost 0 0 0 0 0 0)
      = (Raise TypeError, mkOperationCost 0 0 0 1 0 0)
    ∧ __eq__ x (VExactReal x) (mkOperationCost 0 0 0 0 0 0)
      = (Ok false, mkOperationCost 0 0 0 1 0 0).
Proof. eexists. repeat split; reflexivity. Qed.

(** C3, amended. Both operations count one comparison and decide on the
    simplified symbolic difference.  On rationals they return its definite
    sign.  [__lt__] fails exactly when the engine gives no truth value for
    "difference < 0", with the engine's error.  [__eq__] never fails: it
    returns whether the simplified difference is structurally zero, so an
    unresolved difference compares unequal. *)
Theorem comparison_by_symbolic_difference
    {E : Engine} {L : RationalLaws E} (a b : ExactReal) c :
  __lt__ a (VExactReal b) c
  = (sp_lt_zero (sp_simplify (sp_sub (_symbolic a) (_symbolic b))),
     cmp_counted c)
  ∧ __eq__ a (VExactReal b) c
    = (Ok (sp_eq_zero (sp_simplify (sp_sub (_symbolic a) (_symbolic b)))),
       cmp_counted c)
  ∧ ∀ p q, _symbolic a = sp_Rational p → _symbolic b = sp_Rational q →
      __lt__ a (VExactReal b) c
      = (Ok (bool_decide (p < q)%Qc), cmp_counted c)
      ∧ __eq__ a (VExactReal b) c = (Ok (bool_decide (p = q)), cmp_counted c).
Proof.
  split; [apply lt_run|]. split; [apply eq_run|].
  intros p q Ha Hb. split; [by apply lt_rational | by apply eq_rational].
Qed.

Lemma comparison_by_symbolic_difference_witness :
  RationalLaws Sympy
  ∧ let a := mkExactReal (E:=Sympy) (Rational (Q2Qc (1 # 2))) (Finite (Q2Qc (1 # 2))) in
    let b := mkExactReal (E:=Sympy) NaN NotANumber in
    let c := mkOperationCost 0 0 0 7 0 0 in
    __lt__ a (VExactReal b) c
    = (sp_lt_zero (sp_simplify (sp_sub (_symbolic a) (_symbolic b))),
       cmp_counted c)
    ∧ __eq__ a (VExactReal b) c
      = (Ok (sp_eq_zero (sp_simplify (sp_sub (_symbolic a) (_symbolic b)))),
         cmp_counted c)
    ∧ ∀ p q, _symbolic a = sp_Rational p → _symbolic b = sp_Rational q →
        __lt__ a (VExactReal b) c
        = (Ok (bool_decide (p < q)%Qc), cmp_counted c)
        ∧ __eq__ a (VExactReal b) c
          = (Ok (bool_decide (p = q)), cmp_counted c).
Proof.
  split; [exact Sympy_laws|].
  exact (comparison_by_symbolic_difference (E:=Sympy) (L:=Sympy_laws) _ _ _).
Defined.

(** C6. For all rationals p and q, [ExactReal(p) + ExactReal(q)] holds
    exactly the rational p + q, compares equal to [ExactReal(p + q)], and
    the call adds exactly 1 to the additions counter (and nothing to the
    others). *)
Theorem add_rational_exact
    {E : Engine} {L : RationalLaws E} (p q : Qc) (a b s : ExactReal) c :
  ExactReal_init (VFraction p) = Ok a →
  ExactReal_init (VFraction q) = Ok b →
  ExactReal_init (VFraction (p + q)) = Ok s →
  ∃ r, __add__ a (VExactReal b) c = (Ok r, add_counted c)
       ∧ additions (add_counted c) = additions c + 1
       ∧ _symbolic r = _symbolic s
       ∧ __eq__ r (VExactReal s) (add_counted c)
         = (Ok true, cmp_counted (add_counted c)).
Proof.
  intros [= <-] [= <-] [= <-]. rewrite add_run. cbn [_symbolic].
  rewrite sp_add_rat. destruct (init_rational (p + q)) as [d ->].
  eexists. split; [done|]. split; [done|]. split; [done|].
  rewrite (eq_rational _ _ (p + q) (p + q)) by done.
  by rewrite bool_decide_eq_true_2.
Qed.

Lemma add_rational_exact_witness :
  RationalLaws Sympy
  ∧ ∃ a b s : ExactReal (E:=Sympy),
      ExactReal_init (VFraction (Q2Qc (1 # 3))) = Ok a
      ∧ ExactReal_init (VFraction (Q2Qc (1 # 6))) = Ok b
      ∧ ExactReal_init (VFraction (Q2Qc (1 # 3) + Q2Qc (1 # 6))) = Ok s
      ∧ ∃ r, __add__ a (VExactReal b) (mkOperationCost 5 0 0 0 0 0)
             = (Ok r, add_counted (mkOperationCost 5 0 0 0 0 0))
           ∧ additions (add_counted (mkOperationCost 5 0 0 0 0 0))
             = additions (mkOperationCost 5 0 0 0 0 0) + 1
           ∧ _symbolic r = _symbolic s
           ∧ __eq__ r (VExactReal s) (add_counted (mkOperationCost 5 0 0 0 0 0))
             = (Ok true,
                cmp_counted (add_counted (mkOperationCost 5 0 0 0 0 0))).
Proof.
  split; [exact Sympy_laws|].
  eexists _, _, _. split; [reflexivity|]. split; [reflexivity|].
  split; [reflexivity|].
  exact (add_rational_exact (E:=Sympy) (L:=Sympy_laws)
           (Q2Qc (1 # 3)) (Q2Qc (1 # 6)) _ _ _ _ eq_refl eq_refl eq_refl).
Defined.

(** C7. [ExactReal(1) / ExactReal(3) * ExactReal(3)] holds exactly 1 and
    compares equal to [ExactReal(1)]. *)
Theorem third_times_three_is_one
    {E : Engine} {L : RationalLaws E} (one three : ExactReal) c :
  ExactReal_init (VInt 1) = Ok one →
  ExactReal_init (VInt 3) = Ok three →
  ∃ x y,
    __truediv__ one (VExactReal three) c = (Ok x, div_counted c)
    ∧ __mul__ x (VExactReal three) (div_counted c)
      = (Ok y, mul_counted (div_counted c))
    ∧ _symbolic y = _symbolic one
    ∧ __eq__ y (VExactReal one) (mul_counted (div_counted c))
      = (Ok true, cmp_counted (mul_counted (div_counted c))).
Proof.
  intros [= <-] [= <-].
  destruct (init_rational (Q2Qc (inject_Z 1) / Q2Qc (inject_Z 3))) as [d Hd].
  destruct (init_rational (Q2Qc (inject_Z 1))) as [d' Hd'].
  exists (mkExactReal (sp_Rational (Q2Qc (inject_Z 1) / Q2Qc (inject_Z 3))) d),
         (mkExactReal (sp_Rational (Q2Qc (inject_Z 1))) d').
  rewrite truediv_run, mul_run. cbn [_symbolic].
  rewrite !sp_Integer_rat, sp_div_rat by apply Qc_three_nonzero.
  rewrite sp_mul_rat, Qc_third_times_three, Hd, Hd'.
  split; [done|]. split; [done|]. split; [done|].
  rewrite (eq_rational _ _ (Q2Qc (inject_Z 1)) (Q2Qc (inject_Z 1)))
    by (cbn; by rewrite ?sp_Integer_rat).
  by rewrite bool_decide_eq_true_2.
Qed.

Lemma third_times_three_is_one_witness :
  RationalLaws Sympy
  ∧ ∃ one three : ExactReal (E:=Sympy),
      ExactReal_init (VInt 1) = Ok one
      ∧ ExactReal_init (VInt 3) = Ok three
      ∧ ∃ x y,
          __truediv__ one (VExactReal three) (mkOperationCost 0 0 0 0 0 0)
          = (Ok x, div_counted (mkOperationCost 0 0 0 0 0 0))
          ∧ __mul__ x (VExactReal three)
              (div_counted (mkOperationCost 0 0 0 0 0 0))
            = (Ok y, mul_counted (div_counted (mkOperationCost 0 0 0 0 0 0)))
          ∧ _symbolic y = _symbolic one
          ∧ __eq__ y (VExactReal one)
              (mul_counted (div_counted (mkOperationCost 0 0 0 0 0 0)))
            = (Ok true,
               cmp_counted
                 (mul_counted (div_counted (mkOperationCost 0 0 0 0 0 0)))).
Proof.
  split; [exact Sympy_laws|].
  eexists _, _. split; [reflexivity|]. split; [reflexivity|].
  exact (third_times_three_is_one (E:=Sympy) (L:=Sympy_laws)
           _ _ _ eq_refl eq_refl).
Defined.

End RealRAMProofs.

Module WordRAMProofs.
Import WordRAM.


Example word_add_beyond_width :
  __add__ (mkWordRAMInteger (2 ^ 63 - 1) 64) (Int 1) (mkWordRAMCost 0 0 0)
  = (Ok (mkWordRAMInteger (2 ^ 63) 64), mkWordRAMCost 1 0 0).
Proof. reflexivity. Qed.

End WordRAMProofs.

Module GeometricProofs.
Import Geometric.

Section HillClimb.

Context {N : Numpy}.






End HillClimb.



End GeometricProofs.

(* ================================================================== *)
(** * Further properties of the code *)

Module SumsetExtra.
Import Sumset SumsetProofs.

(** X1. [naive_sumset] returns exactly the pairwise sums: an integer is in
    the set iff it is x + y for some x in A and y in B; [size] is the
    cardinality of the set and [operations] is |A|·|B|. *)
Theorem naive_sumset_characterised a b :
  (∀ z, z ∈ SumsetResult.sumset (naive_sumset a b)
        ↔ ∃ x y, x ∈ a ∧ y ∈ b ∧ z = x + y)
  ∧ SumsetResult.size (naive_sumset a b)
    = Z.of_nat (base.size (SumsetResult.sumset (naive_sumset a b)))
  ∧ SumsetResult.operations (naive_sumset a b)
    = Z.of_nat (length a) * Z.of_nat (length b).
Proof.
  rewrite naive_sumset_spec. cbn. split; [|done].
  intros z. by rewrite elem_of_list_to_set, elem_of_sums.
Qed.






(** X4. For nonempty inputs the sumset has at least d(A) + d(B) − 1
    elements, where d counts distinct values (the sums x + min(B) and
    max(A) + y are all different except for max(A) + min(B)). *)
Theorem sumset_size_additive_bound a b :
  a ≠ [] → b ≠ [] →
  distinct a + distinct b - 1 ≤ SumsetResult.size (naive_sumset a b).
Proof.
  intros Ha Hb.
  destruct (max_spec a Ha) as (max_a & Hmaxa & Hina & _).
  destruct (min_spec b Hb) as (min_b & Hminb & Hinb & _).
  pose proof (max_upper a _ Hmaxa) as Hup.
  pose proof (min_lower b _ Hminb) as Hlow.
  rewrite naive_sumset_spec. cbn. unfold distinct.
  set (X := list_to_set ((λ x, x + min_b) <$> a) : gset Z).
  set (Y := list_to_set ((λ y, max_a + y) <$> b) : gset Z).
  set (S := list_to_set (sums a b) : gset Z).
  assert (HX : base.size X = base.size (list_to_set a : gset Z))
    by (apply size_fmap_inj; intros ???; lia).
  assert (HY : base.size Y = base.size (list_to_set b : gset Z))
    by (apply size_fmap_inj; intros ???; lia).
  assert (Hsub : X ∪ Y ⊆ S).
  { intros z [Hz|Hz]%elem_of_union;
      apply elem_of_list_to_set, list_elem_of_fmap in Hz as (u & -> & Hu);
      apply elem_of_list_to_set, elem_of_sums; eauto. }
  assert (Hdiff : Y ∖ {[max_a + min_b]} ⊆ Y ∖ X).
  { intros z [HzY Hne]%elem_of_difference. apply elem_of_difference.
    split; [done|]. intros HzX. apply Hne, elem_of_singleton.
    apply elem_of_list_to_set, list_elem_of_fmap in HzY as (y & -> & Hy).
    apply elem_of_list_to_set, list_elem_of_fmap in HzX as (x & Hxy & Hx).
    specialize (Hup x Hx). specialize (Hlow y Hy). lia. }
  assert (Hm : ({[max_a + min_b]} : gset Z) ⊆ Y).
  { intros z ->%elem_of_singleton.
    apply elem_of_list_to_set, list_elem_of_fmap. eauto. }
  apply subseteq_size in Hsub, Hdiff.
  rewrite size_union_alt in Hsub.
  rewrite size_difference, size_singleton in Hdiff by done. lia.
Qed.

Lemma sumset_size_additive_bound_witness :
  [1; 1; 4] ≠ [] ∧ [2; 7; 9] ≠ []
  ∧ distinct [1; 1; 4] + distinct [2; 7; 9] - 1
    ≤ SumsetResult.size (naive_sumset [1; 1; 4] [2; 7; 9]).
Proof.
  split; [done|]. split; [done|].
  exact (sumset_size_additive_bound [1; 1; 4] [2; 7; 9]
           ltac:(done) ltac:(done)).
Defined.

End SumsetExtra.

Module RealRAMExtra.
Import PyMore RealRAM RealRAMMore RealRAMProofs.

Lemma bind_ok {S A B} (m : stateful S A) (k : A → stateful S B) s a s' :
  m s = (Ok a, s') → (m ≫= k) s = k a s'.
Proof. intros H. unfold mbind, stateful_bind. by rewrite H. Qed.

Section Rationals.

Context {E : Engine} {L : RationalLaws E}.

Lemma sub_run (a b : ExactReal) c :
  __sub__ a (VExactReal b) c
  = (ExactReal_init (VExpr (sp_sub (_symbolic a) (_symbolic b))),
     add_counted c).
Proof. done. Qed.

Lemma add_rat (a b : ExactReal) p q c :
  _symbolic a = sp_Rational p → _symbolic b = sp_Rational q →
  ∃ r, __add__ a (VExactReal b) c = (Ok r, add_counted c)
       ∧ _symbolic r = sp_Rational (p + q).
Proof.
  intros Ha Hb. rewrite add_run, Ha, Hb, sp_add_rat.
  destruct (init_rational (p + q)) as [d ->]. by eexists.
Qed.

Lemma sub_rat (a b : ExactReal) p q c :
  _symbolic a = sp_Rational p → _symbolic b = sp_Rational q →
  ∃ r, __sub__ a (VExactReal b) c = (Ok r, add_counted c)
       ∧ _symbolic r = sp_Rational (p - q).
Proof.
  intros Ha Hb. rewrite sub_run, Ha, Hb, sp_sub_rat.
  destruct (init_rational (p - q)) as [d ->]. by eexists.
Qed.

Lemma mul_rat (a b : ExactReal) p q c :
  _symbolic a = sp_Rational p → _symbolic b = sp_Rational q →
  ∃ r, __mul__ a (VExactReal b) c = (Ok r, mul_counted c)
       ∧ _symbolic r = sp_Rational (p * q).
Proof.
  intros Ha Hb. rewrite mul_run, Ha, Hb, sp_mul_rat.
  destruct (init_rational (p * q)) as [d ->]. by eexists.
Qed.

Lemma div_rat (a b : ExactReal) p q c :
  _symbolic a = sp_Rational p → _symbolic b = sp_Rational q → q ≠ 0%Qc →
  ∃ r, __truediv__ a (VExactReal b) c = (Ok r, div_counted c)
       ∧ _symbolic r = sp_Rational (p / q).
Proof.
  intros Ha Hb Hq. rewrite truediv_run, Ha, Hb, sp_div_rat by done.
  destruct (init_rational (p / q)) as [d ->]. by eexists.
Qed.

End Rationals.

(** X5. Division by a nonzero rational is exact: for rationals p and
    q ≠ 0, [(ExactReal(p) / ExactReal(q)) * ExactReal(q)] holds exactly p
    and compares equal to [ExactReal(p)]; the calls count one division and
    one multiplication. *)
Theorem div_then_mul_round_trip
    {E : Engine} {L : RationalLaws E} (p q : Qc) (a b : ExactReal) c :
  q ≠ 0%Qc →
  ExactReal_init (VFraction p) = Ok a →
  ExactReal_init (VFraction q) = Ok b →
  ∃ d r,
    __truediv__ a (VExactReal b) c = (Ok d, div_counted c)
    ∧ __mul__ d (VExactReal b) (div_counted c)
      = (Ok r, mul_counted (div_counted c))
    ∧ _symbolic r = _symbolic a
    ∧ __eq__ r (VExactReal a) (mul_counted (div_counted c))
      = (Ok true, cmp_counted (mul_counted (div_counted c))).
Proof.
  intros Hq [= <-] [= <-].
  destruct (div_rat (mkExactReal (sp_Rational p) (frac_numeric p))
              (mkExactReal (sp_Rational q) (frac_numeric q)) p q c
              eq_refl eq_refl Hq) as (d & Hd & Hsd).
  destruct (mul_rat d (mkExactReal (sp_Rational q) (frac_numeric q))
              (p / q) q (div_counted c) Hsd eq_refl) as (r & Hr & Hsr).
  assert (Hpq : (p / q * q)%Qc = p) by (field; done). rewrite Hpq in Hsr.
  exists d, r. split; [done|]. split; [done|]. split; [done|].
  rewrite (eq_rational r _ p p) by done. by rewrite bool_decide_eq_true_2.
Qed.

Lemma Qc_two_sevenths_nonzero : Q2Qc (2 # 7) ≠ 0%Qc.
Proof. intros H. apply (f_equal this) in H. discriminate H. Qed.

Lemma div_then_mul_round_trip_witness :
  RationalLaws Sympy
  ∧ Q2Qc (2 # 7) ≠ 0%Qc
  ∧ ∃ (a b : ExactReal (E:=Sympy)) c,
      ExactReal_init (VFraction (Q2Qc (5 # 3))) = Ok a
      ∧ ExactReal_init (VFraction (Q2Qc (2 # 7))) = Ok b
      ∧ ∃ d r,
          __truediv__ a (VExactReal b) c = (Ok d, div_counted c)
          ∧ __mul__ d (VExactReal b) (div_counted c)
            = (Ok r, mul_counted (div_counted c))
          ∧ _symbolic r = _symbolic a
          ∧ __eq__ r (VExactReal a) (mul_counted (div_counted c))
            = (Ok true, cmp_counted (mul_counted (div_counted c))).
Proof.
  split; [exact Sympy_laws|]. split; [exact Qc_two_sevenths_nonzero|].
  eexists _, _, (mkOperationCost 0 0 0 0 0 0).
  split; [reflexivity|]. split; [reflexivity|].
  exact (div_then_mul_round_trip (E:=Sympy) (L:=Sympy_laws)
           (Q2Qc (5 # 3)) (Q2Qc (2 # 7)) _ _ _
           Qc_two_sevenths_nonzero eq_refl eq_refl).
Defined.

Lemma Qc_trichotomy (p q : Qc) :
  (bool_decide (p < q)%Qc, bool_decide (p = q), bool_decide (q < p)%Qc)
  ∈ [(true, false, false); (false, true, false); (false, false, true)].
Proof.
  destruct (Qclt_le_dec p q) as [H|H].
  - rewrite (bool_decide_eq_true_2 _ H).
    rewrite (bool_decide_eq_false_2 (p = q)) by (by apply Qclt_not_eq).
    rewrite (bool_decide_eq_false_2 (q < p)%Qc)
      by (by apply Qcle_not_lt, Qclt_le_weak).
    set_solver.
  - rewrite (bool_decide_eq_false_2 (p < q)%Qc) by (by apply Qcle_not_lt).
    destruct (Qcle_lt_or_eq _ _ H) as [Hlt | ->].
    + rewrite (bool_decide_eq_true_2 _ Hlt).
      rewrite (bool_decide_eq_false_2 (p = q))
        by (intros ->; by apply (Qclt_not_eq _ _ Hlt)).
      set_solver.
    + rewrite (bool_decide_eq_true_2 (p = p)) by done.
      rewrite (bool_decide_eq_false_2 (p < p)%Qc)
        by (apply Qcle_not_lt, Qcle_refl).
      set_solver.
Qed.

(** X6. On rational values the comparisons are a trichotomy: of
    [a < b], [a == b] and [b < a] exactly one returns True, none raises,
    and each call counts exactly one comparison. *)
Theorem comparison_trichotomy
    {E : Engine} {L : RationalLaws E} (p q : Qc) (a b : ExactReal) c :
  ExactReal_init (VFraction p) = Ok a →
  ExactReal_init (VFraction q) = Ok b →
  ∃ l e g,
    __lt__ a (VExactReal b) c = (Ok l, cmp_counted c)
    ∧ __eq__ a (VExactReal b) c = (Ok e, cmp_counted c)
    ∧ __lt__ b (VExactReal a) c = (Ok g, cmp_counted c)
    ∧ (l, e, g)
      ∈ [(true, false, false); (false, true, false); (false, false, true)].
Proof.
  intros [= <-] [= <-].
  exists (bool_decide (p < q)%Qc), (bool_decide (p = q)),
         (bool_decide (q < p)%Qc).
  split; [by apply lt_rational|]. split; [by apply eq_rational|].
  split; [by apply lt_rational|]. apply Qc_trichotomy.
Qed.

Lemma comparison_trichotomy_witness :
  RationalLaws Sympy
  ∧ ∃ (a b : ExactReal (E:=Sympy)) c,
      ExactReal_init (VFraction (Q2Qc (1 # 3))) = Ok a
      ∧ ExactReal_init (VFraction (Q2Qc (1 # 2))) = Ok b
      ∧ ∃ l e g,
          __lt__ a (VExactReal b) c = (Ok l, cmp_counted c)
          ∧ __eq__ a (VExactReal b) c = (Ok e, cmp_counted c)
          ∧ __lt__ b (VExactReal a) c = (Ok g, cmp_counted c)
          ∧ (l, e, g)
            ∈ [(true, false, false); (false, true, false);
               (false, false, true)].
Proof.
  split; [exact Sympy_laws|].
  eexists _, _, (mkOperationCost 0 0 0 0 0 0).
  split; [reflexivity|]. split; [reflexivity|].
  exact (comparison_trichotomy (E:=Sympy) (L:=Sympy_laws)
           (Q2Qc (1 # 3)) (Q2Qc (1 # 2)) _ _ _ eq_refl eq_refl).
Defined.

(** *** The operation-count experiment *)

Section Run.

Context {E : Engine} {L : RationalLaws E}.

Definition pt (i : Z) : ExactReal := mkExactReal (sp_Integer i) (int_numeric i).

Lemma comprehension_points l :
  comprehension (λ i, ExactReal_init (VInt i)) l = Ok (pt <$> l).
Proof. induction l as [|i l IH]; [done|]. cbn [comprehension]. by rewrite IH. Qed.

Lemma length_points n : length (pt <$> Py.range n) = Z.to_nat n.
Proof. unfold Py.range. by rewrite !length_fmap, length_seq. Qed.

Lemma getitem_points n i :
  0 ≤ i < n → getitem (pt <$> Py.range n) i = Ok (pt i).
Proof.
  intros Hi. unfold getitem. rewrite length_points. cbv zeta.
  destruct (decide (0 ≤ i)) as [_|]; [|lia].
  destruct (decide (0 ≤ i < Z.of_nat (Z.to_nat n))) as [_|]; [|lia].
  unfold Py.range. rewrite !list_lookup_fmap.
  rewrite (lookup_seq_lt 0 (Z.to_nat n) (Z.to_nat i)) by lia. cbn.
  by rewrite Z2Nat.id by lia.
Qed.

Lemma pairs_counted_succ k c :
  add_counted (mul_counted (add_counted (pairs_counted k c)))
  = pairs_counted (k + 1) c.
Proof.
  unfold pairs_counted, add_counted, mul_counted. cbn. f_equal; lia.
Qed.

Lemma pairs_counted_add j k c :
  pairs_counted j (pairs_counted k c) = pairs_counted (k + j) c.
Proof. unfold pairs_counted. cbn. f_equal; lia. Qed.

Lemma pairs_counted_zero c : pairs_counted 0 c = c.
Proof. destruct c. unfold pairs_counted. cbn. f_equal; lia. Qed.

(** The body of the inner loop. *)
Definition pair_body (points : list ExactReal) (i j : Z) (total : ExactReal)
  : stateful OperationCost ExactReal :=
  pi ← lift (getitem points i);
  pj ← lift (getitem points j);
  diff ← __sub__ pi (VExactReal pj);
  sq ← __mul__ diff (VExactReal diff);
  __add__ total (VExactReal sq).

Lemma pair_body_run n i j total t c :
  0 ≤ i < n → 0 ≤ j < n → _symbolic total = sp_Rational t →
  ∃ total' t',
    pair_body (pt <$> Py.range n) i j total c
    = (Ok total', add_counted (mul_counted (add_counted c)))
    ∧ _symbolic total' = sp_Rational t'.
Proof.
  intros Hi Hj Ht. unfold pair_body.
  rewrite (bind_ok _ _ c (pt i) c) by (unfold lift; by rewrite getitem_points).
  rewrite (bind_ok _ _ c (pt j) c) by (unfold lift; by rewrite getitem_points).
  destruct (sub_rat (pt i) (pt j) _ _ c (sp_Integer_rat i) (sp_Integer_rat j))
    as (diff & Hd & Hsd).
  rewrite (bind_ok _ _ _ _ _ Hd).
  destruct (mul_rat diff diff _ _ (add_counted c) Hsd Hsd) as (sq & Hq & Hsq).
  rewrite (bind_ok _ _ _ _ _ Hq).
  destruct (add_rat total sq _ _ (mul_counted (add_counted c)) Ht Hsq)
    as (total' & Ht' & Hst').
  eauto.
Qed.

Lemma inner_loop_run n i js total t c :
  0 ≤ i < n → (∀ j, j ∈ js → 0 ≤ j < n) → _symbolic total = sp_Rational t →
  ∃ total' t',
    for_each_st js (pair_body (pt <$> Py.range n) i) total c
    = (Ok total', pairs_counted (Z.of_nat (length js)) c)
    ∧ _symbolic total' = sp_Rational t'.
Proof.
  intros Hi. revert total t c.
  induction js as [|j js IH]; intros total t c Hjs Ht.
  - exists total, t. cbn. by rewrite pairs_counted_zero.
  - destruct (pair_body_run n i j total t c Hi (Hjs j ltac:(set_solver)) Ht)
      as (total1 & t1 & H1 & Ht1).
    destruct (IH total1 t1 (add_counted (mul_counted (add_counted c)))
                ltac:(set_solver) Ht1) as (total' & t' & H' & Ht').
    exists total', t'. split; [|done].
    cbn [for_each_st]. rewrite (bind_ok _ _ _ _ _ H1), H'.
    f_equal. rewrite <- (pairs_counted_zero c) at 1.
    rewrite pairs_counted_succ, pairs_counted_add. f_equal.
    cbn [length]. lia.
Qed.

Lemma elem_of_range2 start stop j :
  j ∈ range2 start stop → start ≤ j < stop.
Proof.
  unfold range2. intros (k & -> & Hk%elem_of_seq)%list_elem_of_fmap. lia.
Qed.

Lemma length_range2 start stop :
  length (range2 start stop) = Z.to_nat (stop - start).
Proof. unfold range2. by rewrite length_fmap, length_seq. Qed.

(** The number of pairs visited for the outer indices [idxs]. *)
Definition pairs_from (n : Z) (idxs : list Z) : Z :=
  fold_right (λ i acc, Z.of_nat (Z.to_nat (n - (i + 1))) + acc) 0 idxs.

Lemma outer_loop_run n idxs total t c :
  (∀ i, i ∈ idxs → 0 ≤ i < n) → _symbolic total = sp_Rational t →
  ∃ total' t',
    for_each_st idxs (λ i total,
      for_each_st (range2 (i + 1) n) (pair_body (pt <$> Py.range n) i) total)
      total c
    = (Ok total', pairs_counted (pairs_from n idxs) c)
    ∧ _symbolic total' = sp_Rational t'.
Proof.
  revert total t c. induction idxs as [|i idxs IH]; intros total t c Hidxs Ht.
  - exists total, t. cbn. by rewrite pairs_counted_zero.
  - pose proof (Hidxs i ltac:(set_solver)) as Hi.
    destruct (inner_loop_run n i (range2 (i + 1) n) total t c Hi)
      as (total1 & t1 & H1 & Ht1); [|done|].
    { intros j Hj%elem_of_range2. lia. }
    destruct (IH total1 t1
                (pairs_counted (Z.of_nat (length (range2 (i + 1) n))) c)
                ltac:(set_solver) Ht1)
      as (total' & t' & H' & Ht').
    exists total', t'. split; [|done].
    cbn [for_each_st]. rewrite (bind_ok _ _ _ _ _ H1), H'.
    f_equal. rewrite pairs_counted_add, length_range2. f_equal.
Qed.

Lemma pairs_from_seq (s m : nat) :
  2 * pairs_from (Z.of_nat (s + m)) (Z.of_nat <$> seq s m)
  = Z.of_nat m * (Z.of_nat m - 1).
Proof.
  revert s. induction m as [|m IH]; intros s; [done|].
  cbn [seq fmap list_fmap pairs_from fold_right].
  specialize (IH (S s)). replace (S s + m)%nat with (s + S m)%nat in IH by lia.
  unfold pairs_from in IH. lia.
Qed.

Lemma pairs_from_range n :
  0 ≤ n → 2 * pairs_from n (Py.range n) = n * (n - 1).
Proof.
  intros Hn. unfold Py.range.
  pose proof (pairs_from_seq 0 (Z.to_nat n)) as H.
  rewrite Nat.add_0_l, Z2Nat.id in H by lia. done.
Qed.

End Run.

(** X7. [RealRAMOperationsExperiment.run] never raises and reports, for
    m = max(n_points, 0) points, exactly m·(m−1) additions (a subtraction
    and an addition for each of the m·(m−1)/2 pairs), m·(m−1)/2
    multiplications and 3·m·(m−1)/2 operations in total, whatever the
    counter held before (it is reset first); no comparison, division or
    square root is counted. *)
Theorem run_operation_counts
    {E : Engine} {L : RationalLaws E} (n : Z) (c : OperationCost) :
  ∃ r c',
    run n c = (Ok r, c')
    ∧ n_points r = n
    ∧ report_additions r = Z.max 0 n * (Z.max 0 n - 1)
    ∧ 2 * report_multiplications r = Z.max 0 n * (Z.max 0 n - 1)
    ∧ report_total r = report_additions r + report_multiplications r
    ∧ additions c' = report_additions r
    ∧ multiplications c' = report_multiplications r
    ∧ divisions c' = 0 ∧ comparisons c' = 0 ∧ square_roots c' = 0.
Proof.
  unfold run. rewrite comprehension_points.
  rewrite (bind_ok _ _ c (pt <$> Py.range n) c) by done.
  unfold reset_operation_count.
  rewrite (bind_ok _ _ c () (reset c)) by done.
  rewrite (bind_ok _ _ (reset c) (pt 0) (reset c)) by done.
  rewrite length_points.
  set (m := Z.of_nat (Z.to_nat n)).
  assert (Hm : m = Z.max 0 n) by lia.
  assert (Hpts : pt <$> Py.range n = pt <$> Py.range m).
  { unfold Py.range, m. by rewrite Nat2Z.id. }
  rewrite Hpts.
  destruct (outer_loop_run m (Py.range m) (pt 0) (Q2Qc (inject_Z 0))
              (reset c)) as (total & t & Hloop & _).
  { unfold Py.range. intros i (k & -> & Hk%elem_of_seq)%list_elem_of_fmap.
    lia. }
  { apply sp_Integer_rat. }
  unfold pair_body in Hloop. rewrite (bind_ok _ _ _ _ _ Hloop).
  unfold get_operation_count. cbn.
  pose proof (pairs_from_range m ltac:(lia)) as Hp. rewrite <- Hm.
  eexists _, _. split; [reflexivity|].
  unfold total_algebraic, pairs_counted, reset. cbn. repeat split; lia.
Qed.

Lemma run_operation_counts_witness :
  RationalLaws Sympy
  ∧ ∃ r c',
      run (E:=Sympy) 50 (mkOperationCost 9 9 9 9 9 9) = (Ok r, c')
      ∧ n_points r = 50
      ∧ report_additions r = Z.max 0 50 * (Z.max 0 50 - 1)
      ∧ 2 * report_multiplications r = Z.max 0 50 * (Z.max 0 50 - 1)
      ∧ report_total r = report_additions r + report_multiplications r
      ∧ additions c' = report_additions r
      ∧ multiplications c' = report_multiplications r
      ∧ divisions c' = 0 ∧ comparisons c' = 0 ∧ square_roots c' = 0.
Proof.
  split; [exact Sympy_laws|].
  exact (run_operation_counts (E:=Sympy) (L:=Sympy_laws) 50
           (mkOperationCost 9 9 9 9 9 9)).
Defined.

End RealRAMExtra.

Module GeometricExtra.
Import Geometric GeometricProofs GradientDescent.

Section Descent.

Context {N : Numpy} {A : Linalg N}.
Variables (f : Array → Float) (grad_f : Array → Array).
Variables (learning_rate tol : Float).

Local Abbreviation step := (descent_step grad_f learning_rate).
Local Abbreviation below x := (float_lt (np_linalg_norm (grad_f x)) tol).

(** The loop on the indices [s, s+1, ..., s+m-1]. *)
Lemma descent_loop_spec (s m : nat) x :
  match descent_loop f grad_f learning_rate tol (Z.of_nat <$> seq s m) x with
  | inl r =>
      ∃ k : nat,
        (k < m)%nat
        ∧ r = mkOptimizationResult (f (Nat.iter k step x)) (Nat.iter k step x)
                (Z.of_nat (s + k)) (Z.of_nat (s + k) + 1)
                (Z.of_nat (s + k) + 1) true
        ∧ below (Nat.iter k step x) = true
        ∧ ∀ j : nat, (j < k)%nat → below (Nat.iter j step x) = false
  | inr x' =>
      x' = Nat.iter m step x
      ∧ ∀ j : nat, (j < m)%nat → below (Nat.iter j step x) = false
  end.
Proof.
  revert s x. induction m as [|m IH]; intros s x.
  - cbn. split; [done|]. intros j Hj. lia.
  - cbn [seq fmap list_fmap descent_loop].
    destruct (float_lt (np_linalg_norm (grad_f x)) tol) eqn:Hb.
    + exists 0%nat. rewrite Nat.add_0_r. cbn. repeat split; [lia|done|].
      intros j Hj. lia.
    + specialize (IH (S s) (np_descend x learning_rate (grad_f x))).
      fold (step x) in IH |- *.
      destruct (descent_loop _ _ _ _ _ _) as [r|x'].
      * destruct IH as (k & Hk & -> & Hbk & Hprev). exists (S k).
        rewrite !Nat.iter_succ_r. replace (s + S k)%nat with (S s + k)%nat by lia.
        repeat split; [lia|done|].
        intros [|j] Hj; [done|]. rewrite Nat.iter_succ_r. apply Hprev. lia.
      * destruct IH as [-> Hprev]. rewrite Nat.iter_succ_r. split; [done|].
        intros [|j] Hj; [done|]. rewrite Nat.iter_succ_r. apply Hprev. lia.
Qed.

End Descent.

(** X8. [gradient_descent] stops at the first iterate whose gradient norm
    is below [tol].  If it reports convergence, then the iteration index i
    is in [0, max_iter), the returned point is the i-th iterate of
    x ← x − learning_rate·grad_f(x) from a copy of x0, its gradient norm is
    below [tol], no earlier iterate passed the test, and both evaluation
    counts are i + 1.  Otherwise no iterate among the first max(max_iter, 0)
    passed the test, the returned point is the last iterate, [iterations]
    and [gradient_evaluations] are [max_iter] and [function_evaluations] is
    [max_iter + 1].  In both cases [optimal_value] is f at the returned
    point. *)
Theorem gradient_descent_first_hit
    {N : Numpy} {A : Linalg N} (f : Array → Float) (grad_f : Array → Array)
    (x0 : Array) (learning_rate : Float) (max_iter : Z) (tol : Float) :
  let r := gradient_descent f grad_f learning_rate tol x0 max_iter in
  let iterate (k : nat) :=
    Nat.iter k (descent_step grad_f learning_rate) (np_copy x0) in
  let below x := float_lt (np_linalg_norm (grad_f x)) tol in
  optimal_value r = f (optimal_point r)
  ∧ if converged r then
      0 ≤ iterations r < max_iter
      ∧ optimal_point r = iterate (Z.to_nat (iterations r))
      ∧ below (optimal_point r) = true
      ∧ (∀ j : nat, (j < Z.to_nat (iterations r))%nat →
           below (iterate j) = false)
      ∧ function_evaluations r = iterations r + 1
      ∧ gradient_evaluations r = iterations r + 1
    else
      iterations r = max_iter
      ∧ optimal_point r = iterate (Z.to_nat max_iter)
      ∧ (∀ j : nat, (j < Z.to_nat max_iter)%nat → below (iterate j) = false)
      ∧ function_evaluations r = max_iter + 1
      ∧ gradient_evaluations r = max_iter.
Proof.
  intros r iterate below. unfold r, gradient_descent, Py.range.
  pose proof (descent_loop_spec f grad_f learning_rate tol 0
                (Z.to_nat max_iter) (np_copy x0)) as H.
  destruct (descent_loop _ _ _ _ _ _) as [r'|x'].
  - destruct H as (k & Hk & -> & Hb & Hprev). cbn.
    rewrite Nat2Z.id. repeat split; try done; lia.
  - destruct H as [-> Hprev]. cbn. repeat split; done.
Qed.

End GeometricExtra.
